(** * Verification of the bounded byte buffer ([FixedByteArray],
      base_layer/core/src/proof_of_work/monero_rx/fixed_array.rs) and of the
      orphan block validator
      (base_layer/core/src/validation/block_validators/orphan.rs). *)

From Stdlib Require Import List Arith Lia Bool.
From Stdlib Require Import Strings.Byte.
Import ListNotations.

(** Rust's [Result<T, E>]. *)
Inductive result (A E : Type) := Ok (a : A) | Err (e : E).
Arguments Ok {A E} a.
Arguments Err {A E} e.

Module FixedArray.

(** [const MAX_ARR_SIZE: usize = 63;] *)
Definition MAX_ARR_SIZE : nat := 63.

(** [struct FixedByteArray { elems: [u8; MAX_ARR_SIZE], len: u8 }].
    The array type fixes [length elems = MAX_ARR_SIZE]; the constructors
    below only ever build values of that shape. *)
Record FixedByteArray := mkFBA {
  elems : list byte;
  len_field : byte
}.

(** Slice equality [[u8] == [u8]]: same length, equal bytes pointwise. *)
Fixpoint bytes_eqb (xs ys : list byte) : bool :=
  match xs, ys with
  | [], [] => true
  | x :: xs', y :: ys' => Byte.eqb x y && bytes_eqb xs' ys'
  | _, _ => false
  end.

(** [#[derive(PartialEq)]]: field-wise comparison of [elems] and [len]. *)
Definition fba_eqb (a b : FixedByteArray) : bool :=
  bytes_eqb (elems a) (elems b) && Byte.eqb (len_field a) (len_field b).

(** Rust's range slice [s[..n]]: panics ([None]) when [n > s.len()]. *)
Definition slice_to (s : list byte) (n : nat) : option (list byte) :=
  if n <=? length s then Some (firstn n s) else None.

(** [fn len(&self) -> usize { self.len as usize }] *)
Definition len (a : FixedByteArray) : nat := Byte.to_nat (len_field a).

(** [fn is_full] and [fn is_empty]. *)
Definition is_full (a : FixedByteArray) : bool := len a =? MAX_ARR_SIZE.
Definition is_empty (a : FixedByteArray) : bool := Byte.eqb (len_field a) x00.

(** [impl Deref]: [&self.elems[..self.len as usize]]. *)
Definition deref (a : FixedByteArray) : option (list byte) :=
  slice_to (elems a) (len a).

(** [fn as_slice(&self) -> &[u8] { &self[..self.len()] }]: slices the
    dereferenced view once more. *)
Definition as_slice (a : FixedByteArray) : option (list byte) :=
  match deref a with
  | Some s => slice_to s (len a)
  | None => None
  end.

(** [fn as_bytes(&self) -> &[u8] { self.as_slice() }] *)
Definition as_bytes (a : FixedByteArray) : option (list byte) := as_slice a.

(** [impl Default]: zeroed storage, [len: 0]; [fn new()] is [Default::default()]. *)
Definition default : FixedByteArray := mkFBA (repeat x00 MAX_ARR_SIZE) x00.
Definition new : FixedByteArray := default.

(** [ByteArrayError] (only the variant this file raises). *)
Inductive ByteArrayError := IncorrectLength.

(** [elems[..len].copy_from_slice(&bytes[..len])] on [elems = [0u8; 63]]. *)
Definition copy_prefix (dst src : list byte) (n : nat) : list byte :=
  firstn n src ++ skipn n dst.

(** [fn from_bytes(bytes: &[u8]) -> Result<Self, ByteArrayError>] *)
Definition from_bytes (bytes : list byte) : result FixedByteArray ByteArrayError :=
  if MAX_ARR_SIZE <? length bytes then Err IncorrectLength
  else match Byte.of_nat (length bytes) with   (* u8::try_from *)
       | None => Err IncorrectLength
       | Some l =>
           let elems := copy_prefix (repeat x00 MAX_ARR_SIZE) bytes (Byte.to_nat l) in
           Ok (mkFBA elems l)
       end.

(** Borsh [serialize]: [self.len] as one byte, then every item of
    [self.as_slice()] taken up to [self.len]; the writer is a byte sink.
    [None] is a panic of the slicing. *)
Definition serialize (a : FixedByteArray) : option (list byte) :=
  match as_slice a with
  | Some data => Some (len_field a :: firstn (len a) data)
  | None => None
  end.

(** ** Decoding from [&mut &[u8]]

    The reader is the remaining slice; it is threaded as state, and stays
    observable by the caller after an error. Heap allocations are recorded
    in a trace. *)

(** [io::Error]s raised on this path: the [InvalidInput] error built by
    [deserialize] when the length exceeds 63, and borsh's error for reading a
    [u8] from an empty slice (the truncated-input error). *)
Inductive io_error :=
  | LengthExceeded (n : nat)
  | UnexpectedLengthOfInput.

Inductive event := Alloc (capacity : nat).

Record dstate := mkDState { input : list byte; trace : list event }.

(** Outcome of a decoding computation; [Panic] is a failed [unwrap]. *)
Inductive outcome (A : Type) := DOk (a : A) | DErr (e : io_error) | Panic.
Arguments DOk {A} a.
Arguments DErr {A} e.
Arguments Panic {A}.

Definition M (A : Type) := dstate -> outcome A * dstate.

Definition ret {A} (a : A) : M A := fun s => (DOk a, s).
Definition bind {A B} (m : M A) (k : A -> M B) : M B :=
  fun s => match m s with
           | (DOk a, s') => k a s'
           | (DErr e, s') => (DErr e, s')
           | (Panic, s') => (Panic, s')
           end.
Definition throw {A} (e : io_error) : M A := fun s => (DErr e, s).

Notation "x <- m ;; k" := (bind m (fun x => k))
  (at level 61, m at next level, right associativity).

(** [u8::deserialize]: take the head of the slice and advance it. *)
Definition u8_deserialize : M byte := fun s =>
  match input s with
  | [] => (DErr UnexpectedLengthOfInput, s)
  | b :: rest => (DOk b, mkDState rest (trace s))
  end.

(** [Vec::with_capacity(n)] *)
Definition with_capacity (n : nat) : M (list byte) := fun s =>
  (DOk [], mkDState (input s) (trace s ++ [Alloc n])).

(** [for _ in 0..n { bytes.push(u8::deserialize(buf)?); }] *)
Fixpoint push_n (n : nat) (bytes : list byte) : M (list byte) :=
  match n with
  | 0 => ret bytes
  | S k => b <- u8_deserialize ;; push_n k (bytes ++ [b])
  end.

(** [Self::from_bytes(bytes.as_bytes()).unwrap()] *)
Definition unwrap_from_bytes (bytes : list byte) : M FixedByteArray := fun s =>
  match from_bytes bytes with
  | Ok a => (DOk a, s)
  | Err _ => (Panic, s)
  end.

(** Borsh [deserialize(buf: &mut &[u8]) -> io::Result<Self>] *)
Definition deserialize : M FixedByteArray :=
  b <- u8_deserialize ;;
  let len := Byte.to_nat b in
  if MAX_ARR_SIZE <? len then throw (LengthExceeded len)
  else bytes <- with_capacity len ;;
       bytes <- push_n len bytes ;;
       unwrap_from_bytes bytes.

(** Decoding a stream from a fresh trace. *)
Definition decode (stream : list byte) : outcome FixedByteArray * dstate :=
  deserialize (mkDState stream []).

(** Values reachable through the public constructors. *)
Inductive constructed : FixedByteArray -> Prop :=
  | c_default : constructed default
  | c_from_bytes bs a : from_bytes bs = Ok a -> constructed a
  | c_decode stream a s : decode stream = (DOk a, s) -> constructed a.

End FixedArray.

Module Orphan.

Section Validator.

(** The block's parts and the collaborators' types live outside this file. *)
Context {Input Output Kernel Constants ConsensusManager CryptoFactories
         ValidationError : Type}.

(** [AggregateBody]: the parts of the body the validator reads. *)
Record AggregateBody := mkBody {
  inputs : list Input;
  outputs : list Output;
  kernels : list Kernel
}.

(** [Block]: [header.height] and [body]. *)
Record Block := mkBlock {
  header_height : nat;
  body : AggregateBody
}.

(** The collaborators of [validate]: [ConsensusManager::consensus_constants],
    the helpers imported from [validation::helpers], and the
    [ValidationError::ValidatingGenesis] variant. *)
Record ValidationEnv := mkEnv {
  consensus_constants : ConsensusManager -> nat -> Constants;
  validate_versions : AggregateBody -> Constants -> result unit ValidationError;
  check_block_weight : Block -> Constants -> result unit ValidationError;
  check_sorting_and_duplicates : AggregateBody -> result unit ValidationError;
  check_permitted_output_types : Constants -> Output -> result unit ValidationError;
  check_validator_node_registration_utxo :
    Constants -> Output -> result unit ValidationError;
  check_total_burned : AggregateBody -> result unit ValidationError;
  check_maturity : nat -> list Input -> result unit ValidationError;
  check_kernel_lock_height : nat -> list Kernel -> result unit ValidationError;
  check_output_features : Block -> ConsensusManager -> result unit ValidationError;
  check_coinbase_output :
    Block -> ConsensusManager -> CryptoFactories -> result unit ValidationError;
  check_accounting_balance :
    Block -> ConsensusManager -> bool -> CryptoFactories -> result unit ValidationError;
  ValidatingGenesis : ValidationError
}.

(** [struct OrphanBlockValidator] *)
Record OrphanBlockValidator := mkValidator {
  rules : ConsensusManager;
  bypass_range_proof_verification : bool;
  factories : CryptoFactories
}.

(** [OrphanBlockValidator::new] *)
Definition new (r : ConsensusManager) (bypass : bool) (f : CryptoFactories)
  : OrphanBlockValidator := mkValidator r bypass f.

(** The pipeline steps, as they show in the trace of a run. *)
Inductive Step :=
  | StepConsensusConstants
  | StepValidateVersions
  | StepCheckBlockWeight
  | StepCheckSortingAndDuplicates
  | StepCheckPermittedOutputTypes (o : Output)
  | StepCheckValidatorNodeRegistrationUtxo (o : Output)
  | StepCheckTotalBurned
  | StepCheckMaturity
  | StepCheckKernelLockHeight
  | StepCheckOutputFeatures
  | StepCheckCoinbaseOutput
  | StepCheckAccountingBalance.

(** Observable events: a collaborator call, or a [warn!]/[debug!] line. *)
Inductive Event :=
  | Call (s : Step)
  | LogWarn
  | LogDebug.

(** Error monad with an event trace: [?] propagates the error and stops. *)
Definition V (A : Type) : Type := result A ValidationError * list Event.

Definition vret {A} (a : A) : V A := (Ok a, []).
Definition vbind {A B} (m : V A) (k : A -> V B) : V B :=
  match m with
  | (Ok a, t) => let (r, t') := k a in (r, t ++ t')
  | (Err e, t) => (Err e, t)
  end.

Local Notation "x <- m ;; k" := (vbind m (fun x => k))
  (at level 61, m at next level, right associativity).

(** [helper(...)?]: the call is recorded, then its result is propagated. *)
Definition call (s : Step) (r : result unit ValidationError) : V unit :=
  (r, [Call s]).

Variable env : ValidationEnv.

(** [for output in block.body.outputs() { ...?; ...?; }] *)
Fixpoint check_outputs (constants : Constants) (outs : list Output) : V unit :=
  match outs with
  | [] => vret tt
  | o :: rest =>
      _ <- call (StepCheckPermittedOutputTypes o)
             (check_permitted_output_types env constants o) ;;
      _ <- call (StepCheckValidatorNodeRegistrationUtxo o)
             (check_validator_node_registration_utxo env constants o) ;;
      check_outputs constants rest
  end.

(** [OrphanValidation::validate] for [OrphanBlockValidator]. The [block_id]
    string is only used by the final [debug!] line and is not modelled. *)
Definition validate (self : OrphanBlockValidator) (block : Block) : V unit :=
  let height := header_height block in
  if height =? 0 then (Err (ValidatingGenesis env), [LogWarn])
  else
    constants <- (Ok (consensus_constants env (rules self) height),
                  [Call StepConsensusConstants]) ;;
    _ <- call StepValidateVersions (validate_versions env (body block) constants) ;;
    _ <- call StepCheckBlockWeight (check_block_weight env block constants) ;;
    _ <- call StepCheckSortingAndDuplicates
           (check_sorting_and_duplicates env (body block)) ;;
    _ <- check_outputs constants (outputs (body block)) ;;
    _ <- call StepCheckTotalBurned (check_total_burned env (body block)) ;;
    _ <- call StepCheckMaturity (check_maturity env height (inputs (body block))) ;;
    _ <- call StepCheckKernelLockHeight
           (check_kernel_lock_height env height (kernels (body block))) ;;
    _ <- call StepCheckOutputFeatures (check_output_features env block (rules self)) ;;
    _ <- call StepCheckCoinbaseOutput
           (check_coinbase_output env block (rules self) (factories self)) ;;
    _ <- call StepCheckAccountingBalance
           (check_accounting_balance env block (rules self)
              (bypass_range_proof_verification self) (factories self)) ;;
    (Ok tt, [LogDebug]).

(** The collaborator calls of a trace, in order. *)
Definition calls (t : list Event) : list Step :=
  flat_map (fun e => match e with Call s => [s] | _ => [] end) t.

(** The pipeline as the specification lists it (steps 1 to 11), each step
    with the outcome of its check on this block. *)
Definition spec_pipeline (self : OrphanBlockValidator) (block : Block)
  : list (Step * result unit ValidationError) :=
  let height := header_height block in
  let constants := consensus_constants env (rules self) height in
  [(StepConsensusConstants, Ok tt);
   (StepValidateVersions, validate_versions env (body block) constants);
   (StepCheckBlockWeight, check_block_weight env block constants);
   (StepCheckSortingAndDuplicates, check_sorting_and_duplicates env (body block))]
  ++ flat_map (fun o =>
       [(StepCheckPermittedOutputTypes o, check_permitted_output_types env constants o);
        (StepCheckValidatorNodeRegistrationUtxo o,
         check_validator_node_registration_utxo env constants o)])
       (outputs (body block))
  ++ [(StepCheckTotalBurned, check_total_burned env (body block));
      (StepCheckMaturity, check_maturity env height (inputs (body block)));
      (StepCheckKernelLockHeight, check_kernel_lock_height env height (kernels (body block)));
      (StepCheckOutputFeatures, check_output_features env block (rules self));
      (StepCheckCoinbaseOutput, check_coinbase_output env block (rules self) (factories self));
      (StepCheckAccountingBalance,
       check_accounting_balance env block (rules self)
         (bypass_range_proof_verification self) (factories self))].

End Validator.

(** A fail-fast run of an ordered list of steps: the steps executed (up to
    and including the first failing one) and the first error. *)
Fixpoint fail_fast {S E : Type} (steps : list (S * result unit E))
  : result unit E * list S :=
  match steps with
  | [] => (Ok tt, [])
  | (s, Err e) :: _ => (Err e, [s])
  | (s, Ok _) :: rest => let (r, ss) := fail_fast rest in (r, s :: ss)
  end.

(** Modelled from the spec: [check_accounting_balance] (in
    [validation::helpers], not part of these sources). Step 11: the value
    balance must close; unless [bypass_range_proof] is set, every range
    proof must also verify. *)
Definition check_accounting_balance_model {Block ConsensusManager CryptoFactories E : Type}
  (balance_closes : Block -> ConsensusManager -> bool)
  (range_proofs_valid : Block -> CryptoFactories -> bool)
  (balance_error range_proof_error : E)
  (block : Block) (rules : ConsensusManager) (bypass_range_proof : bool)
  (factories : CryptoFactories) : result unit E :=
  if balance_closes block rules then
    if bypass_range_proof || range_proofs_valid block factories then Ok tt
    else Err range_proof_error
  else Err balance_error.

(** The state around a call of [validate]: the validator and the block
    (both borrowed immutably by [validate]) and the diagnostic log that the
    [warn!]/[debug!] macros append to. *)
Record World {Input Output Kernel ConsensusManager CryptoFactories : Type} := mkWorld {
  w_validator : @OrphanBlockValidator ConsensusManager CryptoFactories;
  w_block : @Block Input Output Kernel;
  w_log : list (@Event Output)
}.
Arguments World : clear implicits.

Definition is_log_line {Output} (e : @Event Output) : bool :=
  match e with Call _ => false | _ => true end.

(** One call [self.validate(&block)] against the world. *)
Definition run_validate {Input Output Kernel Constants ConsensusManager CryptoFactories
                         ValidationError : Type}
  (env : @ValidationEnv Input Output Kernel Constants ConsensusManager CryptoFactories
           ValidationError)
  (w : World Input Output Kernel ConsensusManager CryptoFactories)
  : result unit ValidationError * World Input Output Kernel ConsensusManager CryptoFactories :=
  let (r, t) := validate env (w_validator w) (w_block w) in
  (r, mkWorld _ _ _ _ _ (w_validator w) (w_block w) (w_log w ++ filter is_log_line t)).

(** A small concrete instance of the collaborators, used to exercise the
    statements below: outputs, inputs and kernels are amounts, the constants
    are the maximal number of outputs. *)
Inductive SampleError :=
  | ErrGenesis | ErrWeight | ErrBalance | ErrRangeProof.

Definition sample_balance_closes (b : @Block nat nat nat) (_ : unit) : bool :=
  list_sum (inputs (body b)) =? list_sum (outputs (body b)).

Definition sample_range_proofs_valid (b : @Block nat nat nat) (_ : unit) : bool :=
  forallb (fun o => o <? 100) (outputs (body b)).

Definition sample_env : @ValidationEnv nat nat nat nat unit unit SampleError :=
  {| consensus_constants := fun _ _ => 2;
     validate_versions := fun _ _ => Ok tt;
     check_block_weight := fun b c =>
       if c <? length (outputs (body b)) then Err ErrWeight else Ok tt;
     check_sorting_and_duplicates := fun _ => Ok tt;
     check_permitted_output_types := fun _ _ => Ok tt;
     check_validator_node_registration_utxo := fun _ _ => Ok tt;
     check_total_burned := fun _ => Ok tt;
     check_maturity := fun _ _ => Ok tt;
     check_kernel_lock_height := fun _ _ => Ok tt;
     check_output_features := fun _ _ => Ok tt;
     check_coinbase_output := fun _ _ _ => Ok tt;
     check_accounting_balance :=
       check_accounting_balance_model sample_balance_closes sample_range_proofs_valid
         ErrBalance ErrRangeProof;
     ValidatingGenesis := ErrGenesis |}.

End Orphan.

Module FixedArrayFacts.
Import FixedArray.

(** ** Auxiliary lemmas *)

Lemma skipn_repeat {A} (x : A) n m : skipn n (repeat x m) = repeat x (m - n).
Proof.
  revert m; induction n as [|n IH]; intros [|m]; simpl; auto.
Qed.

Lemma to_nat_inj (x y : byte) : Byte.to_nat x = Byte.to_nat y -> x = y.
Proof.
  intros H. assert (Some x = Some y) as E.
  { rewrite <- (Byte.of_to_nat x), <- (Byte.of_to_nat y), H. reflexivity. }
  now inversion E.
Qed.

Lemma bytes_eqb_spec xs ys : bytes_eqb xs ys = true <-> xs = ys.
Proof.
  revert ys; induction xs as [|x xs IH]; intros [|y ys]; simpl;
    try (split; congruence).
  rewrite andb_true_iff, IH. split.
  - intros [Hb ->]. now apply Byte.byte_dec_bl in Hb as ->.
  - intros H; inversion H; subst. split; auto. now apply Byte.byte_dec_lb.
Qed.

Lemma fba_eqb_spec a b : fba_eqb a b = true <-> a = b.
Proof.
  destruct a as [ea la], b as [eb lb]; unfold fba_eqb; simpl.
  rewrite andb_true_iff, bytes_eqb_spec. split.
  - intros [-> Hl]. now apply Byte.byte_dec_bl in Hl as ->.
  - intros H; inversion H; subst. split; auto. now apply Byte.byte_dec_lb.
Qed.

Lemma from_bytes_ok bs :
  length bs <= MAX_ARR_SIZE ->
  exists l, Byte.to_nat l = length bs /\
    from_bytes bs = Ok (mkFBA (bs ++ repeat x00 (MAX_ARR_SIZE - length bs)) l).
Proof.
  intros Hle. unfold from_bytes.
  replace (MAX_ARR_SIZE <? length bs) with false
    by (symmetry; apply Nat.ltb_ge; exact Hle).
  destruct (Byte.of_nat (length bs)) as [l|] eqn:E.
  - apply Byte.to_of_nat in E. exists l; split; [exact E|].
    unfold copy_prefix. rewrite E, firstn_all, skipn_repeat. reflexivity.
  - apply Byte.of_nat_None_iff in E. unfold MAX_ARR_SIZE in Hle. lia.
Qed.

Lemma from_bytes_err bs :
  MAX_ARR_SIZE < length bs -> from_bytes bs = Err IncorrectLength.
Proof.
  intros H. unfold from_bytes.
  replace (MAX_ARR_SIZE <? length bs) with true
    by (symmetry; apply Nat.ltb_lt; exact H).
  reflexivity.
Qed.

(** Shape of every constructed value: at most 63 used bytes, zeroes after. *)
Definition shaped (a : FixedByteArray) : Prop :=
  len a <= MAX_ARR_SIZE /\ length (elems a) = MAX_ARR_SIZE /\
  elems a = firstn (len a) (elems a) ++ repeat x00 (MAX_ARR_SIZE - len a).

Lemma from_bytes_shaped bs a :
  from_bytes bs = Ok a -> shaped a /\ firstn (len a) (elems a) = bs.
Proof.
  intros H. destruct (Nat.le_gt_cases (length bs) MAX_ARR_SIZE) as [Hle|Hgt].
  - destruct (from_bytes_ok bs Hle) as (l & Hl & E).
    rewrite E in H. injection H as <-.
    assert (HL : length (bs ++ repeat x00 (MAX_ARR_SIZE - length bs)) = MAX_ARR_SIZE)
      by (rewrite length_app, repeat_length; unfold MAX_ARR_SIZE in *; lia).
    unfold shaped, len; cbn [elems len_field].
    rewrite Hl, firstn_app, firstn_all, Nat.sub_diag, app_nil_r.
    split; [split; [exact Hle | split; [exact HL|reflexivity]] | reflexivity].
  - rewrite from_bytes_err in H by exact Hgt. discriminate.
Qed.

Lemma shaped_length a : shaped a -> length (elems a) = MAX_ARR_SIZE.
Proof. intros (_ & H & _). exact H. Qed.

Lemma push_n_ok n acc s :
  n <= length (input s) ->
  push_n n acc s = (DOk (acc ++ firstn n (input s)),
                    mkDState (skipn n (input s)) (trace s)).
Proof.
  revert acc s; induction n as [|n IH]; intros acc [inp tr] H; simpl in *.
  - now rewrite app_nil_r.
  - destruct inp as [|b rest]; simpl in H; [lia|].
    unfold bind, u8_deserialize; simpl.
    rewrite IH by (simpl; lia). simpl. now rewrite <- app_assoc.
Qed.

Lemma push_n_short n acc s :
  length (input s) < n ->
  push_n n acc s = (DErr UnexpectedLengthOfInput, mkDState [] (trace s)).
Proof.
  revert acc s; induction n as [|n IH]; intros acc [inp tr] H; simpl in *; [lia|].
  destruct inp as [|b rest]; unfold bind, u8_deserialize; simpl; [reflexivity|].
  rewrite IH by (simpl in *; lia). reflexivity.
Qed.

Lemma deserialize_ok_from_bytes s a s' :
  deserialize s = (DOk a, s') -> exists bs, from_bytes bs = Ok a.
Proof.
  destruct s as [inp tr]. unfold deserialize, bind, u8_deserialize; simpl.
  destruct inp as [|b rest]; [discriminate|].
  destruct (MAX_ARR_SIZE <? Byte.to_nat b); [discriminate|].
  unfold with_capacity; simpl.
  destruct (push_n (Byte.to_nat b) [] (mkDState rest (tr ++ [Alloc (Byte.to_nat b)])))
    as [[bytes| |] s1]; try discriminate.
  unfold unwrap_from_bytes. destruct (from_bytes bytes) eqn:E; [|discriminate].
  intros H; inversion H; subst. eauto.
Qed.

Lemma constructed_shaped a : constructed a -> shaped a.
Proof.
  intros [ | bs a' H | stream a' s H].
  - unfold shaped, default, len; simpl. repeat split; [unfold MAX_ARR_SIZE; lia|..];
    reflexivity.
  - exact (proj1 (from_bytes_shaped _ _ H)).
  - destruct (deserialize_ok_from_bytes _ _ _ H) as [bs Hb].
    exact (proj1 (from_bytes_shaped _ _ Hb)).
Qed.

Lemma slice_to_firstn l n : n <= length l -> slice_to l n = Some (firstn n l).
Proof. intros H. unfold slice_to. now rewrite (proj2 (Nat.leb_le _ _) H). Qed.

Lemma shaped_views a :
  shaped a ->
  deref a = Some (firstn (len a) (elems a)) /\
  as_slice a = Some (firstn (len a) (elems a)).
Proof.
  intros Hs. pose proof (shaped_length a Hs) as Hlen. destruct Hs as [Hle _].
  unfold MAX_ARR_SIZE in *.
  unfold as_slice, deref. rewrite slice_to_firstn by lia.
  rewrite slice_to_firstn by (rewrite length_firstn; lia).
  rewrite firstn_firstn, Nat.min_id. auto.
Qed.

(** ** Claims on the bounded byte buffer *)

(** C2: [deserialize] first reads one length byte [L]. If [L > 63] it fails
    with the length-exceeded error having consumed exactly that byte and
    allocated nothing; if [L <= 63] but fewer than [L] bytes remain it fails
    with the unexpected-end-of-input error; otherwise it reads exactly [L]
    bytes and builds the value with [from_bytes] on them. An empty stream
    fails before anything is read. *)
Lemma deserialize_length_guard (b : byte) (rest : list byte) :
  let L := Byte.to_nat b in
  decode [] = (DErr UnexpectedLengthOfInput, mkDState [] []) /\
  (MAX_ARR_SIZE < L ->
   decode (b :: rest) = (DErr (LengthExceeded L), mkDState rest [])) /\
  (L <= MAX_ARR_SIZE -> length rest < L ->
   decode (b :: rest) = (DErr UnexpectedLengthOfInput, mkDState [] [Alloc L])) /\
  (L <= MAX_ARR_SIZE -> L <= length rest ->
   exists a, from_bytes (firstn L rest) = Ok a /\
             decode (b :: rest) = (DOk a, mkDState (skipn L rest) [Alloc L])).
Proof.
  intros L. split; [reflexivity|].
  unfold decode, deserialize, bind, u8_deserialize; cbn [input trace].
  fold L. split; [|split].
  - intros H. rewrite (proj2 (Nat.ltb_lt _ _) H). reflexivity.
  - intros H Hs. rewrite (proj2 (Nat.ltb_ge _ _) H).
    unfold with_capacity; cbn [input trace app].
    rewrite push_n_short by (cbn [input]; exact Hs). reflexivity.
  - intros H Hs. rewrite (proj2 (Nat.ltb_ge _ _) H).
    unfold with_capacity; cbn [input trace app].
    rewrite push_n_ok by (cbn [input]; exact Hs). cbn [input trace app].
    assert (Hf : length (firstn L rest) <= MAX_ARR_SIZE)
      by (rewrite length_firstn; lia).
    destruct (from_bytes_ok _ Hf) as (l & _ & E).
    eexists; split; [exact E|]. unfold unwrap_from_bytes. now rewrite E.
Qed.

(** C3: for [len(b) <= 63], serializing [from_bytes b] gives [1 + len(b)]
    bytes, and deserializing them followed by any [rest] gives back exactly
    [from_bytes b], consuming [1 + len(b)] bytes and leaving [rest]. *)
Lemma serialize_deserialize_roundtrip (bs : list byte) :
  length bs <= MAX_ARR_SIZE ->
  exists a enc,
    from_bytes bs = Ok a /\ serialize a = Some enc /\
    length enc = 1 + length bs /\
    forall rest, decode (enc ++ rest) = (DOk a, mkDState rest [Alloc (length bs)]).
Proof.
  intros Hle. destruct (from_bytes_ok bs Hle) as (l & Hl & E).
  set (a := mkFBA (bs ++ repeat x00 (MAX_ARR_SIZE - length bs)) l) in *.
  destruct (from_bytes_shaped _ _ E) as [Hs Hp].
  destruct (shaped_views _ Hs) as [_ Hv].
  exists a, (l :: bs). split; [exact E|]. split.
  { unfold serialize. rewrite Hv, firstn_firstn, Nat.min_id, Hp. reflexivity. }
  split; [reflexivity|].
  intros rest. cbn [app].
  unfold decode, deserialize, bind, u8_deserialize; cbn [input trace].
  rewrite Hl, (proj2 (Nat.ltb_ge _ _) Hle).
  unfold with_capacity; cbn [input trace app].
  rewrite push_n_ok by (cbn [input]; rewrite length_app; lia).
  cbn [input trace app].
  rewrite firstn_app, firstn_all, Nat.sub_diag, app_nil_r.
  rewrite skipn_app, skipn_all, Nat.sub_diag; cbn [skipn app].
  unfold unwrap_from_bytes. now rewrite E.
Qed.

(** C5: [from_bytes] on at most 63 bytes succeeds; the result's [len] is the
    input length, its first [len] storage bytes are the input, and every
    storage byte after them is zero. On more than 63 bytes it fails with
    [IncorrectLength], the capacity error. *)
Lemma from_bytes_spec (bs : list byte) :
  (length bs <= MAX_ARR_SIZE ->
   exists a, from_bytes bs = Ok a /\ len a = length bs /\
     length (elems a) = MAX_ARR_SIZE /\
     firstn (len a) (elems a) = bs /\
     skipn (len a) (elems a) = repeat x00 (MAX_ARR_SIZE - len a)) /\
  (MAX_ARR_SIZE < length bs -> from_bytes bs = Err IncorrectLength).
Proof.
  split; [|apply from_bytes_err].
  intros Hle. destruct (from_bytes_ok bs Hle) as (l & Hl & E).
  destruct (from_bytes_shaped _ _ E) as [(Hle' & Hlen & He) Hp].
  exists (mkFBA (bs ++ repeat x00 (MAX_ARR_SIZE - length bs)) l).
  split; [exact E|]. split; [exact Hl|]. split; [exact Hlen|]. split; [exact Hp|].
  rewrite He at 1. rewrite skipn_app, Hp.
  unfold len; cbn [elems len_field]. rewrite Hl, skipn_all, Nat.sub_diag.
  reflexivity.
Qed.

(** C6: for values built by the public constructors, the derived equality
    holds exactly when the [len]s agree and the first [len] bytes agree. *)
Lemma eq_logical_content (a b : FixedByteArray) :
  constructed a -> constructed b ->
  (fba_eqb a b = true <->
   len a = len b /\ firstn (len a) (elems a) = firstn (len b) (elems b)).
Proof.
  intros Ha Hb. rewrite fba_eqb_spec. split.
  - intros ->. auto.
  - intros [Hl Hp].
    destruct (constructed_shaped a Ha) as (_ & _ & Hea).
    destruct (constructed_shaped b Hb) as (_ & _ & Heb).
    destruct a as [ea la], b as [eb lb].
    unfold len in *; cbn [elems len_field] in *.
    apply to_nat_inj in Hl as Hlf. subst lb.
    rewrite Hea, Heb, Hp. reflexivity.
Qed.

(** C9: every constructed value has [len <= 63] (over 63 storage bytes), and
    [deref], [as_slice], [as_bytes] and [serialize] expose exactly
    [elems[..len]]. *)
Lemma reads_expose_prefix (a : FixedByteArray) :
  constructed a ->
  len a <= MAX_ARR_SIZE /\ length (elems a) = MAX_ARR_SIZE /\
  deref a = Some (firstn (len a) (elems a)) /\
  as_slice a = Some (firstn (len a) (elems a)) /\
  as_bytes a = Some (firstn (len a) (elems a)) /\
  serialize a = Some (len_field a :: firstn (len a) (elems a)).
Proof.
  intros Hc. pose proof (constructed_shaped a Hc) as Hs.
  destruct (shaped_views a Hs) as [Hd Hv].
  destruct Hs as (Hle & Hlen & _).
  unfold as_bytes, serialize. rewrite Hv, firstn_firstn, Nat.min_id.
  repeat split; auto.
Qed.

(** C10: the [unwrap] in [deserialize] is unreachable: from any reader
    state, [deserialize] never panics. *)
Lemma deserialize_never_panics (s : dstate) :
  fst (deserialize s) <> Panic.
Proof.
  destruct s as [inp tr].
  unfold deserialize, bind, u8_deserialize; cbn [input trace].
  destruct inp as [|b rest]; [discriminate|].
  destruct (MAX_ARR_SIZE <? Byte.to_nat b) eqn:Hc; [discriminate|].
  apply Nat.ltb_ge in Hc.
  unfold with_capacity; cbn [input trace].
  destruct (Nat.le_gt_cases (Byte.to_nat b) (length rest)) as [Hs|Hs].
  - rewrite push_n_ok by (cbn [input]; exact Hs). cbn [input trace app].
    assert (Hf : length (firstn (Byte.to_nat b) rest) <= MAX_ARR_SIZE)
      by (rewrite length_firstn; lia).
    destruct (from_bytes_ok _ Hf) as (l & _ & E).
    unfold unwrap_from_bytes. rewrite E. discriminate.
  - rewrite push_n_short by (cbn [input]; exact Hs). discriminate.
Qed.

End FixedArrayFacts.

Module OrphanFacts.
Import Orphan.

Section Facts.
Context {Input Output Kernel Constants ConsensusManager CryptoFactories
         ValidationError : Type}.
Local Abbreviation Env := (@ValidationEnv Input Output Kernel Constants ConsensusManager
                   CryptoFactories ValidationError).
Local Abbreviation VU := (@V Output ValidationError unit).

(** What a run shows: its result and the collaborator calls it made. *)
Definition sem (m : VU) : result unit ValidationError * list (@Step Output) :=
  (fst m, calls (snd m)).

Lemma calls_app (t1 t2 : list (@Event Output)) :
  calls (t1 ++ t2) = calls t1 ++ calls t2.
Proof. unfold calls. apply flat_map_app. Qed.

Lemma sem_vbind (m : VU) (k : unit -> VU) :
  sem (vbind m k) =
  match fst m with
  | Ok _ => (fst (k tt), calls (snd m) ++ calls (snd (k tt)))
  | Err e => (Err e, calls (snd m))
  end.
Proof.
  destruct m as [[[]|e] t]; unfold sem; simpl; [|reflexivity].
  destruct (k tt) as [r t']. simpl. now rewrite calls_app.
Qed.

Lemma fail_fast_app (l1 l2 : list (@Step Output * result unit ValidationError)) :
  fail_fast (l1 ++ l2) =
  match fail_fast l1 with
  | (Ok _, ss) => (fst (fail_fast l2), ss ++ snd (fail_fast l2))
  | (Err e, ss) => (Err e, ss)
  end.
Proof.
  induction l1 as [|[s [[]|e]] l1 IH]; simpl.
  - destruct (fail_fast l2); reflexivity.
  - rewrite IH. destruct (fail_fast l1) as [[[]|e] ss]; simpl; reflexivity.
  - reflexivity.
Qed.

Lemma sem_check_outputs (env : Env) c outs :
  sem (check_outputs env c outs) =
  fail_fast (flat_map (fun o =>
    [(StepCheckPermittedOutputTypes o, check_permitted_output_types env c o);
     (StepCheckValidatorNodeRegistrationUtxo o,
      check_validator_node_registration_utxo env c o)]) outs).
Proof.
  induction outs as [|o outs IH]; [reflexivity|].
  unfold sem in *. cbn [check_outputs flat_map app fail_fast].
  destruct (check_permitted_output_types env c o) as [[]|e]; [|reflexivity].
  destruct (check_validator_node_registration_utxo env c o) as [[]|e];
    [|reflexivity].
  cbn. destruct (check_outputs env c outs) as [r t]. cbn in IH. rewrite <- IH.
  reflexivity.
Qed.

(** The run of [validate] on a non-genesis block is the fail-fast run of
    the pipeline in the specified order. *)
Lemma validate_sem (env : Env) v b :
  0 < header_height b ->
  sem (validate env v b) = fail_fast (spec_pipeline env v b).
Proof.
  intros H. unfold validate, spec_pipeline.
  replace (header_height b =? 0) with false by (symmetry; apply Nat.eqb_neq; lia).
  set (c := consensus_constants env (rules v) (header_height b)).
  rewrite fail_fast_app, fail_fast_app.
  cbn [fail_fast vbind call].
  destruct (validate_versions env (body b) c) as [[]|e]; [|reflexivity].
  destruct (check_block_weight env b c) as [[]|e]; [|reflexivity].
  destruct (check_sorting_and_duplicates env (body b)) as [[]|e]; [|reflexivity].
  rewrite <- sem_check_outputs. unfold sem.
  destruct (check_outputs env c (outputs (body b))) as [[[]|e] t].
  all: cbn [vbind fst snd].
  all: repeat match goal with
         | |- context [match ?x with Ok _ => _ | Err _ => _ end] =>
             destruct x as [[]|?]
         end.
  all: cbn; rewrite ?calls_app; cbn; try reflexivity.
  all: rewrite flat_map_app; reflexivity.
Qed.

Lemma fail_fast_snoc (l : list (@Step Output * result unit ValidationError)) s r :
  fail_fast (l ++ [(s, r)]) =
  match fail_fast l with
  | (Ok _, ss) => (r, ss ++ [s])
  | (Err e, ss) => (Err e, ss)
  end.
Proof.
  rewrite fail_fast_app. destruct (fail_fast l) as [[[]|e] ss]; [|reflexivity].
  destruct r as [[]|]; reflexivity.
Qed.

Lemma spec_pipeline_snoc (env : Env) v b :
  spec_pipeline env v b =
  removelast (spec_pipeline env v b) ++
  [(StepCheckAccountingBalance,
    check_accounting_balance env b (rules v) (bypass_range_proof_verification v)
      (factories v))].
Proof.
  unfold spec_pipeline; cbv zeta.
  rewrite !removelast_app
    by (try (intro Hc; apply app_eq_nil in Hc; destruct Hc as [_ Hc]); discriminate).
  cbn [removelast]. rewrite <- !app_assoc. reflexivity.
Qed.

Lemma removelast_spec_pipeline (env : Env) v v' b :
  rules v' = rules v -> factories v' = factories v ->
  removelast (spec_pipeline env v b) = removelast (spec_pipeline env v' b).
Proof.
  intros Hr Hf. unfold spec_pipeline; cbv zeta.
  rewrite !removelast_app
    by (try (intro Hc; apply app_eq_nil in Hc; destruct Hc as [_ Hc]); discriminate).
  cbn [removelast]. rewrite Hr, Hf. reflexivity.
Qed.

(** ** Claims on the orphan block validator *)

(** C1: on a block of height > 0, [validate] runs the steps in the specified
    order and stops at the first failing one, returning its error (the calls
    made are exactly the steps up to that one); in particular, when the
    version check passes and both the weight check and the accounting
    balance fail, the weight error is returned and no later step runs. *)
Theorem validate_pipeline_order (env : Env) v b :
  0 < header_height b ->
  sem (validate env v b) = fail_fast (spec_pipeline env v b) /\
  (forall ew eb,
     let constants := consensus_constants env (rules v) (header_height b) in
     validate_versions env (body b) constants = Ok tt ->
     check_block_weight env b constants = Err ew ->
     check_accounting_balance env b (rules v) (bypass_range_proof_verification v)
       (factories v) = Err eb ->
     sem (validate env v b) =
     (Err ew, [StepConsensusConstants; StepValidateVersions; StepCheckBlockWeight])).
Proof.
  intros H. rewrite validate_sem by exact H. split; [reflexivity|].
  intros ew eb constants Hv Hw _.
  unfold spec_pipeline; cbv zeta. fold constants. rewrite Hv, Hw. reflexivity.
Qed.

(** C4: on a block of height 0, [validate] returns [ValidatingGenesis]
    whatever the body, validator and collaborators, after a single warning
    line and without calling any collaborator. *)
Theorem validate_genesis (env : Env) v (bd : AggregateBody) :
  validate env v (mkBlock 0 bd) = (Err (ValidatingGenesis env), [LogWarn]) /\
  calls (snd (validate env v (mkBlock 0 bd))) = [].
Proof. split; reflexivity. Qed.

(** C7: [validate] is deterministic and leaves its inputs alone: running it
    twice against the same world gives the same result both times, the
    validator and the block are unchanged, and the only change to the world
    is the same run of diagnostic log lines appended by each call. *)
Theorem validate_deterministic_pure (env : Env)
  (w0 : World Input Output Kernel ConsensusManager CryptoFactories) :
  let (r1, w1) := run_validate env w0 in
  let (r2, w2) := run_validate env w1 in
  r1 = r2 /\
  w_validator w1 = w_validator w0 /\ w_block w1 = w_block w0 /\
  w_validator w2 = w_validator w0 /\ w_block w2 = w_block w0 /\
  exists d, w_log w1 = w_log w0 ++ d /\ w_log w2 = w_log w1 ++ d /\
            Forall (fun e => is_log_line e = true) d.
Proof.
  destruct w0 as [v b log0]. unfold run_validate; cbn [w_validator w_block w_log].
  destruct (validate env v b) as [r t] eqn:E. cbn [w_validator w_block w_log].
  rewrite E. cbn [w_validator w_block w_log].
  do 5 (split; [reflexivity|]).
  exists (filter is_log_line t). split; [reflexivity|]. split; [reflexivity|].
  apply Forall_forall. intros x Hx. now apply filter_In in Hx as [_ Hx].
Qed.

(** C8: [bypass_range_proof_verification] only reaches step 11. For two
    validators that differ at most in the flag, steps 1 to 10 have the same
    outcomes, the same collaborators are called, and a run that stops before
    step 11 has the same result. With [check_accounting_balance] as the
    specification describes it, a block whose balance closes but whose range
    proofs fail passes step 11 with the flag set and fails it without. *)
Theorem bypass_flag_only_step11 (env : Env) v v' b
  (balance_closes : Block -> ConsensusManager -> bool)
  (range_proofs_valid : Block -> CryptoFactories -> bool)
  (balance_error range_proof_error : ValidationError) :
  rules v' = rules v -> factories v' = factories v ->
  removelast (spec_pipeline env v b) = removelast (spec_pipeline env v' b) /\
  calls (snd (validate env v b)) = calls (snd (validate env v' b)) /\
  (~ In StepCheckAccountingBalance (calls (snd (validate env v b))) ->
   fst (validate env v b) = fst (validate env v' b)) /\
  (check_accounting_balance env =
     check_accounting_balance_model balance_closes range_proofs_valid
       balance_error range_proof_error ->
   balance_closes b (rules v) = true ->
   range_proofs_valid b (factories v) = false ->
   check_accounting_balance env b (rules v) true (factories v) = Ok tt /\
   check_accounting_balance env b (rules v) false (factories v) = Err range_proof_error).
Proof.
  intros Hr Hf.
  pose proof (removelast_spec_pipeline env v v' b Hr Hf) as Hl.
  split; [exact Hl|].
  assert (Hsem : sem (validate env v b) = sem (validate env v' b) \/
                 (In StepCheckAccountingBalance (calls (snd (validate env v b))) /\
                  calls (snd (validate env v b)) = calls (snd (validate env v' b)))).
  { destruct (Nat.eq_dec (header_height b) 0) as [H0|H0].
    - left. destruct b as [h bd]; cbn in H0; subst h. reflexivity.
    - assert (Hs : forall u, sem (validate env u b) = fail_fast (spec_pipeline env u b))
        by (intros u; apply validate_sem; lia).
      pose proof (Hs v) as Hv. pose proof (Hs v') as Hv'. unfold sem in Hv, Hv'.
      rewrite spec_pipeline_snoc, fail_fast_snoc in Hv, Hv'. rewrite <- Hl in Hv'.
      destruct (fail_fast (removelast (spec_pipeline env v b))) as [[[]|e] ss].
      + right. injection Hv as _ ->. injection Hv' as _ ->.
        split; [apply in_or_app; right; left; reflexivity | reflexivity].
      + left. unfold sem. rewrite Hv, Hv'. reflexivity. }
  split; [|split].
  - destruct Hsem as [Hsem|[_ Hc]]; [|exact Hc].
    unfold sem in Hsem. now injection Hsem.
  - intros Hn. destruct Hsem as [Hsem|[Hin _]]; [|contradiction].
    unfold sem in Hsem. now injection Hsem.
  - intros He Hb Hp. rewrite He. unfold check_accounting_balance_model.
    rewrite Hb, Hp. split; reflexivity.
Qed.

End Facts.
End OrphanFacts.

(** ** Further properties of the bounded byte buffer *)
Module FixedArrayMore.
Import FixedArray FixedArrayFacts.

Lemma from_bytes_len bs a : from_bytes bs = Ok a -> len a = length bs.
Proof.
  intros H. destruct (Nat.le_gt_cases (length bs) MAX_ARR_SIZE) as [Hle|Hgt].
  - destruct (from_bytes_ok bs Hle) as (l & Hl & E). rewrite E in H.
    injection H as <-. exact Hl.
  - rewrite from_bytes_err in H by exact Hgt. discriminate.
Qed.

(** The successful decodings, read off [deserialize]. *)
Lemma decode_cons_ok b rest a :
  Byte.to_nat b <= MAX_ARR_SIZE -> Byte.to_nat b <= length rest ->
  from_bytes (firstn (Byte.to_nat b) rest) = Ok a ->
  decode (b :: rest) =
  (DOk a, mkDState (skipn (Byte.to_nat b) rest) [Alloc (Byte.to_nat b)]).
Proof.
  intros H Hs E.
  unfold decode, deserialize, bind, u8_deserialize; cbn [input trace].
  rewrite (proj2 (Nat.ltb_ge _ _) H).
  unfold with_capacity; cbn [input trace app].
  rewrite push_n_ok by (cbn [input]; exact Hs). cbn [input trace app].
  unfold unwrap_from_bytes. now rewrite E.
Qed.

Lemma decode_ok_inv stream a s :
  decode stream = (DOk a, s) ->
  exists b rest, stream = b :: rest /\ Byte.to_nat b <= MAX_ARR_SIZE /\
    Byte.to_nat b <= length rest /\
    from_bytes (firstn (Byte.to_nat b) rest) = Ok a /\
    s = mkDState (skipn (Byte.to_nat b) rest) [Alloc (Byte.to_nat b)].
Proof.
  unfold decode, deserialize, bind, u8_deserialize; cbn [input trace].
  destruct stream as [|b rest]; [discriminate|].
  destruct (MAX_ARR_SIZE <? Byte.to_nat b) eqn:Hc; [discriminate|].
  apply Nat.ltb_ge in Hc. unfold with_capacity; cbn [input trace app].
  destruct (Nat.le_gt_cases (Byte.to_nat b) (length rest)) as [Hs|Hs].
  - rewrite push_n_ok by (cbn [input]; exact Hs). cbn [input trace app].
    unfold unwrap_from_bytes.
    destruct (from_bytes (firstn (Byte.to_nat b) rest)) as [a'|] eqn:E;
      [|discriminate].
    intros H; injection H as <- <-. exists b, rest. auto 6.
  - rewrite push_n_short by (cbn [input]; exact Hs). discriminate.
Qed.

(** Every constructed value is [from_bytes] of its own view. *)
Lemma constructed_from_view a :
  constructed a ->
  as_slice a = Some (firstn (len a) (elems a)) /\
  from_bytes (firstn (len a) (elems a)) = Ok a.
Proof.
  intros Hc. pose proof (constructed_shaped a Hc) as Hs.
  destruct (shaped_views a Hs) as [_ Hv]. split; [exact Hv|].
  destruct Hs as (Hle & Hlen & He).
  assert (Hp : length (firstn (len a) (elems a)) = len a)
    by (rewrite length_firstn; lia).
  destruct (from_bytes_ok (firstn (len a) (elems a))) as (l & Hl & E); [lia|].
  rewrite E. rewrite Hp in Hl |- *. apply to_nat_inj in Hl.
  destruct a as [ea la]; unfold len in *; cbn [elems len_field] in *.
  subst l. rewrite <- He. reflexivity.
Qed.

(** X1: every buffer obtained from the public constructors is rebuilt by
    [from_bytes] from its own [as_slice] view, and [from_bytes] maps
    distinct inputs to distinct buffers. *)
Theorem from_bytes_as_slice_canonical (a : FixedByteArray) (bs1 bs2 : list byte) :
  (constructed a -> exists p, as_slice a = Some p /\ from_bytes p = Ok a) /\
  (from_bytes bs1 = Ok a -> from_bytes bs2 = Ok a -> bs1 = bs2).
Proof.
  split.
  - intros Hc. destruct (constructed_from_view a Hc) as [Hv E]. eauto.
  - intros E1 E2.
    destruct (from_bytes_shaped _ _ E1) as [_ H1].
    destruct (from_bytes_shaped _ _ E2) as [_ H2]. congruence.
Qed.

(** X2: decoding then serializing gives back exactly the bytes consumed:
    a successful [deserialize] consumes the encoding of the value it
    returns, allocating once [len] bytes. *)
Theorem deserialize_consumes_encoding (stream : list byte) a s :
  decode stream = (DOk a, s) ->
  exists enc, serialize a = Some enc /\ stream = enc ++ input s /\
              trace s = [Alloc (len a)].
Proof.
  intros H. destruct (decode_ok_inv _ _ _ H) as (b & rest & -> & Hle & Hs & E & ->).
  pose proof (from_bytes_len _ _ E) as Hl.
  rewrite length_firstn, Nat.min_l in Hl by exact Hs.
  destruct (from_bytes_shaped _ _ E) as [Hsh Hp].
  destruct (shaped_views _ Hsh) as [_ Hv].
  assert (Hb : len_field a = b) by (apply to_nat_inj; exact Hl).
  exists (b :: firstn (Byte.to_nat b) rest). unfold serialize.
  rewrite Hv, firstn_firstn, Nat.min_id, Hp, Hb. cbn [input trace].
  rewrite Hl. cbn [app]. rewrite firstn_skipn. auto.
Qed.

(** X3: every constructed value round-trips through its encoding, whatever
    follows it in the stream. *)
Theorem constructed_roundtrip (a : FixedByteArray) :
  constructed a ->
  exists enc, serialize a = Some enc /\ length enc = 1 + len a /\
    forall rest, decode (enc ++ rest) = (DOk a, mkDState rest [Alloc (len a)]).
Proof.
  intros Hc. destruct (constructed_from_view a Hc) as [Hv E].
  pose proof (constructed_shaped a Hc) as (Hle & Hlen & _).
  assert (Hp : length (firstn (len a) (elems a)) = len a)
    by (rewrite length_firstn; lia).
  exists (len_field a :: firstn (len a) (elems a)). split.
  { unfold serialize. rewrite Hv, firstn_firstn, Nat.min_id. reflexivity. }
  split; [cbn; now rewrite Hp|].
  intros rest. cbn [app].
  rewrite (decode_cons_ok (len_field a) (firstn (len a) (elems a) ++ rest) a);
    change (Byte.to_nat (len_field a)) with (len a).
  - rewrite skipn_app, skipn_all2 by lia.
    rewrite Hp, Nat.sub_diag. reflexivity.
  - exact Hle.
  - rewrite length_app. lia.
  - rewrite firstn_app, firstn_all2 by lia.
    rewrite Hp, Nat.sub_diag, app_nil_r. exact E.
Qed.


(** X5: a successful decoding does not depend on what follows the bytes it
    consumed: appending bytes to the stream only appends them to what is
    left unread. *)
Theorem deserialize_ignores_suffix (stream extra : list byte) a s :
  decode stream = (DOk a, s) ->
  decode (stream ++ extra) = (DOk a, mkDState (input s ++ extra) (trace s)).
Proof.
  intros H. destruct (decode_ok_inv _ _ _ H) as (b & rest & -> & Hle & Hs & E & ->).
  cbn [app input trace]. rewrite decode_cons_ok with (a := a).
  - rewrite skipn_app, (proj2 (Nat.sub_0_le _ _) Hs). reflexivity.
  - exact Hle.
  - rewrite length_app. lia.
  - rewrite firstn_app, (proj2 (Nat.sub_0_le _ _) Hs), app_nil_r. exact E.
Qed.

(** X6: among constructed values, [is_empty] holds exactly for [new()], and
    [is_full] exactly when the [as_slice] view has 63 bytes. *)
Theorem is_empty_is_full_views (a : FixedByteArray) :
  constructed a ->
  (is_empty a = true <-> a = new) /\
  (is_full a = true <-> exists p, as_slice a = Some p /\ length p = MAX_ARR_SIZE).
Proof.
  intros Hc. pose proof (constructed_shaped a Hc) as Hs.
  destruct (shaped_views a Hs) as [_ Hv]. destruct Hs as (Hle & Hlen & He).
  split.
  - unfold is_empty. split.
    + intros H0. apply Byte.byte_dec_bl in H0.
      destruct a as [ea la]; unfold len in *; cbn [elems len_field] in *. subst la.
      cbn in He. rewrite He. reflexivity.
    + intros ->. reflexivity.
  - unfold is_full. rewrite Nat.eqb_eq. split.
    + intros Hf. exists (firstn (len a) (elems a)). split; [exact Hv|].
      rewrite length_firstn. lia.
    + intros (p & Hp & Hl). rewrite Hv in Hp. injection Hp as <-.
      rewrite length_firstn in Hl. lia.
Qed.

End FixedArrayMore.

(** ** Further properties of the orphan block validator *)
Module OrphanMore.
Import Orphan OrphanFacts.

Section More.
Context {Input Output Kernel Constants ConsensusManager CryptoFactories
         ValidationError : Type}.
Local Abbreviation Env := (@ValidationEnv Input Output Kernel Constants ConsensusManager
                   CryptoFactories ValidationError).

Lemma fail_fast_ok (l : list (@Step Output * result unit ValidationError)) :
  (fst (fail_fast l) = Ok tt <-> Forall (fun p => snd p = Ok tt) l) /\
  (fst (fail_fast l) = Ok tt -> snd (fail_fast l) = map fst l).
Proof.
  induction l as [|[s [[]|e]] l [IH1 IH2]]; cbn.
  - split; [split; auto|reflexivity].
  - destruct (fail_fast l) as [r ss]; cbn in *. split.
    + rewrite IH1. split; [intros H; constructor; auto | now inversion 1].
    + intros H. rewrite IH2 by exact H. reflexivity.
  - split; [split; [discriminate | now inversion 1]| discriminate].
Qed.

Lemma fail_fast_err (l : list (@Step Output * result unit ValidationError)) e ss :
  fail_fast l = (Err e, ss) ->
  exists pre s post, l = pre ++ (s, Err e) :: post /\
    Forall (fun p => snd p = Ok tt) pre /\ ss = map fst pre ++ [s].
Proof.
  revert ss; induction l as [|[s [[]|e']] l IH]; intros ss; cbn.
  - discriminate.
  - destruct (fail_fast l) as [r ss'] eqn:E. intros H; injection H as -> <-.
    destruct (IH ss' eq_refl) as (pre & s' & post & -> & Hf & ->).
    exists ((s, Ok tt) :: pre), s', post. auto.
  - intros H; injection H as -> <-. exists [], s, l. auto.
Qed.

Lemma spec_pipeline_length (env : Env) v b :
  length (spec_pipeline env v b) = 10 + 2 * length (outputs (body b)).
Proof.
  unfold spec_pipeline; cbv zeta. rewrite !length_app.
  induction (outputs (body b)) as [|o os IH]; cbn in *; lia.
Qed.

(** X7: [validate] accepts a block exactly when its height is not 0 and
    every step of the pipeline succeeds on it; an accepted block has gone
    through every step, in order: [10 + 2 * #outputs] collaborator calls. *)
Theorem validate_accepts_iff (env : Env) v b :
  (fst (validate env v b) = Ok tt <->
   0 < header_height b /\ Forall (fun p => snd p = Ok tt) (spec_pipeline env v b)) /\
  (fst (validate env v b) = Ok tt ->
   calls (snd (validate env v b)) = map fst (spec_pipeline env v b) /\
   length (calls (snd (validate env v b))) = 10 + 2 * length (outputs (body b))).
Proof.
  destruct (Nat.eq_dec (header_height b) 0) as [H0|H0].
  { destruct b as [h bd]; cbn in H0; subst h. cbn.
    split; [split; [discriminate | lia] | discriminate]. }
  assert (Hs : sem (validate env v b) = fail_fast (spec_pipeline env v b))
    by (apply validate_sem; lia).
  unfold sem in Hs.
  destruct (fail_fast_ok (spec_pipeline env v b)) as [Hiff Hmap].
  assert (Hf : fst (validate env v b) = fst (fail_fast (spec_pipeline env v b)))
    by (rewrite <- Hs; reflexivity).
  assert (Hc : calls (snd (validate env v b)) = snd (fail_fast (spec_pipeline env v b)))
    by (rewrite <- Hs; reflexivity).
  rewrite Hf, Hc, Hiff. split.
  - split; [intros H; split; [lia|exact H] | intros [_ H]; exact H].
  - intros H. rewrite Hmap by (apply Hiff; exact H). split; [reflexivity|].
    rewrite length_map. apply spec_pipeline_length.
Qed.

(** X8: every rejection of a non-genesis block comes from exactly one check:
    the returned error is the outcome of some step of the pipeline, every
    step before it succeeded, and the calls made are those steps followed
    by the failing one (none after it). A genesis block is rejected with
    [ValidatingGenesis] and no call. *)
Theorem validate_rejection_source (env : Env) v b e :
  fst (validate env v b) = Err e ->
  (header_height b = 0 /\ e = ValidatingGenesis env /\
   calls (snd (validate env v b)) = []) \/
  (0 < header_height b /\
   exists pre s post, spec_pipeline env v b = pre ++ (s, Err e) :: post /\
     Forall (fun p => snd p = Ok tt) pre /\
     calls (snd (validate env v b)) = map fst pre ++ [s]).
Proof.
  intros He. destruct (Nat.eq_dec (header_height b) 0) as [H0|H0].
  { left. destruct b as [h bd]; cbn in H0; subst h. cbn in He |- *.
    injection He as <-. auto. }
  right. split; [lia|].
  assert (Hs : sem (validate env v b) = fail_fast (spec_pipeline env v b))
    by (apply validate_sem; lia).
  unfold sem in Hs. rewrite He in Hs.
  exact (fail_fast_err _ _ _ (eq_sym Hs)).
Qed.



End More.
End OrphanMore.

(** ** The unit tests of fixed_array.rs, run on the model *)
Module FixedArrayTests.
Import FixedArray.

(** [from_bytes]: one byte, 63 bytes, and the 64-byte failure. *)
Example test_from_bytes :
  (exists a, from_bytes [x01] = Ok a /\ len a = 1 /\ deref a = Some [x01]) /\
  (exists a, from_bytes (repeat x01 63) = Ok a /\ len a = 63 /\
             deref a = Some (repeat x01 63)) /\
  from_bytes (repeat x01 64) = Err IncorrectLength.
Proof.
  split; [eexists; split; [reflexivity|split; reflexivity]|].
  split; [eexists; split; [reflexivity|split; reflexivity]|].
  reflexivity.
Qed.

(** [capacity_overflow_does_not_panic] *)
Example test_capacity_overflow :
  fst (decode [xff; xff; xff; xff; xff; xff; xff; xff; x7f])
  = DErr (LengthExceeded 255).
Proof. reflexivity. Qed.

(** [length_check]: 64 bytes all equal to 63, then a first byte of 64. *)
Example test_length_check :
  (exists a s, decode (repeat "?"%byte 64) = (DOk a, s) /\ len a = 63) /\
  fst (decode (x40 :: repeat "?"%byte 63)) = DErr (LengthExceeded 64).
Proof.
  split; [do 2 eexists; split; [vm_compute; reflexivity | reflexivity]|].
  reflexivity.
Qed.

(** [test_borsh_de_serialization]: trailing bytes are left in the reader. *)
Example test_borsh_de_serialization :
  exists a, from_bytes [x05; x06; x07] = Ok a /\
    serialize a = Some [x03; x05; x06; x07] /\
    decode ([x03; x05; x06; x07] ++ [x01; x02; x03]) =
      (DOk a, mkDState [x01; x02; x03] [Alloc 3]).
Proof. eexists; split; [reflexivity|split; reflexivity]. Qed.

End FixedArrayTests.

(** ** Instances of the claims' statements at concrete inputs *)
Module Witnesses.
Import FixedArray Orphan.

Lemma deserialize_length_guard_witness :
  decode [x40; x01] = (DErr (LengthExceeded 64), mkDState [x01] []) /\
  decode [x03; x01] = (DErr UnexpectedLengthOfInput, mkDState [] [Alloc 3]) /\
  (exists a, from_bytes [x05; x06] = Ok a /\
             decode [x02; x05; x06; x07] = (DOk a, mkDState [x07] [Alloc 2])).
Proof.
  pose proof (FixedArrayFacts.deserialize_length_guard x40 [x01]) as (_ & H64 & _).
  pose proof (FixedArrayFacts.deserialize_length_guard x03 [x01]) as (_ & _ & H3 & _).
  pose proof (FixedArrayFacts.deserialize_length_guard x02 [x05; x06; x07])
    as (_ & _ & _ & H2).
  split; [apply H64; unfold MAX_ARR_SIZE; cbn; lia|].
  split; [apply H3; unfold MAX_ARR_SIZE; cbn; lia|].
  apply H2; unfold MAX_ARR_SIZE; cbn; lia.
Defined.

Lemma serialize_deserialize_roundtrip_witness :
  length [x05; x06; x07] <= MAX_ARR_SIZE /\
  exists a enc,
    from_bytes [x05; x06; x07] = Ok a /\ serialize a = Some enc /\
    length enc = 1 + length [x05; x06; x07] /\
    forall rest, decode (enc ++ rest) = (DOk a, mkDState rest [Alloc 3]).
Proof.
  assert (H : length [x05; x06; x07] <= MAX_ARR_SIZE)
    by (unfold MAX_ARR_SIZE; cbn; lia).
  split; [exact H|].
  exact (FixedArrayFacts.serialize_deserialize_roundtrip [x05; x06; x07] H).
Defined.

Lemma from_bytes_spec_witness :
  (exists a, from_bytes (repeat x01 63) = Ok a /\ len a = 63) /\
  from_bytes (repeat x01 64) = Err IncorrectLength.
Proof.
  pose proof (FixedArrayFacts.from_bytes_spec (repeat x01 63)) as [H63 _].
  pose proof (FixedArrayFacts.from_bytes_spec (repeat x01 64)) as [_ H64].
  split.
  - destruct H63 as (a & Ha & Hl & _);
      [rewrite repeat_length; unfold MAX_ARR_SIZE; lia|].
    exists a. split; [exact Ha|]. rewrite Hl, repeat_length. reflexivity.
  - apply H64. rewrite repeat_length. unfold MAX_ARR_SIZE; lia.
Defined.

Definition five : FixedByteArray := mkFBA (x05 :: repeat x00 62) x01.

Lemma eq_logical_content_witness :
  constructed five /\ constructed default /\
  (fba_eqb five default = true <->
   len five = len default /\
   firstn (len five) (elems five) = firstn (len default) (elems default)).
Proof.
  assert (H5 : constructed five) by (apply (c_from_bytes [x05]); reflexivity).
  assert (H0 : constructed default) by constructor.
  split; [exact H5|]. split; [exact H0|].
  exact (FixedArrayFacts.eq_logical_content five default H5 H0).
Defined.

Lemma reads_expose_prefix_witness :
  constructed five /\ as_slice five = Some [x05] /\ serialize five = Some [x01; x05].
Proof.
  assert (H5 : constructed five) by (apply (c_from_bytes [x05]); reflexivity).
  split; [exact H5|].
  pose proof (FixedArrayFacts.reads_expose_prefix five H5) as (_ & _ & _ & Hs & _ & Hz).
  split; [exact Hs | exact Hz].
Defined.

Definition heavy_unbalanced : @Block nat nat nat := mkBlock 5 (mkBody [1] [1; 2; 200] []).

Lemma validate_pipeline_order_witness :
  0 < header_height heavy_unbalanced /\
  OrphanFacts.sem (validate sample_env (mkValidator tt false tt) heavy_unbalanced) =
  (Err ErrWeight, [StepConsensusConstants; StepValidateVersions; StepCheckBlockWeight]).
Proof.
  assert (H : 0 < header_height heavy_unbalanced) by (cbn; lia).
  split; [exact H|].
  pose proof (OrphanFacts.validate_pipeline_order sample_env (mkValidator tt false tt)
                heavy_unbalanced H) as [_ P].
  apply (P ErrWeight ErrBalance); reflexivity.
Defined.

Definition balanced_bad_proof : @Block nat nat nat := mkBlock 3 (mkBody [150] [150] []).

Lemma bypass_flag_only_step11_witness :
  check_accounting_balance sample_env balanced_bad_proof tt true tt = Ok tt /\
  check_accounting_balance sample_env balanced_bad_proof tt false tt = Err ErrRangeProof /\
  calls (snd (validate sample_env (mkValidator tt true tt) balanced_bad_proof)) =
  calls (snd (validate sample_env (mkValidator tt false tt) balanced_bad_proof)).
Proof.
  pose proof (OrphanFacts.bypass_flag_only_step11 sample_env
                (mkValidator tt true tt) (mkValidator tt false tt) balanced_bad_proof
                sample_balance_closes sample_range_proofs_valid ErrBalance ErrRangeProof
                eq_refl eq_refl) as (_ & Hc & _ & Hm).
  destruct Hm as [Ht Hf]; [reflexivity | reflexivity | reflexivity |].
  split; [exact Ht|]. split; [exact Hf | exact Hc].
Defined.

End Witnesses.

(** ** Instances of the further properties at concrete inputs *)
Module MoreWitnesses.
Import FixedArray Orphan.

Lemma from_bytes_as_slice_canonical_witness :
  constructed Witnesses.five /\ from_bytes [x05] = Ok Witnesses.five /\
  (exists p, as_slice Witnesses.five = Some p /\ from_bytes p = Ok Witnesses.five) /\
  [x05] = [x05].
Proof.
  assert (H5 : constructed Witnesses.five) by (apply (c_from_bytes [x05]); reflexivity).
  assert (E : from_bytes [x05] = Ok Witnesses.five) by reflexivity.
  pose proof (FixedArrayMore.from_bytes_as_slice_canonical Witnesses.five [x05] [x05])
    as [H1 H2].
  split; [exact H5|]. split; [exact E|]. split; [exact (H1 H5)|]. exact (H2 E E).
Defined.

Lemma deserialize_consumes_encoding_witness :
  decode [x01; x05; x09] = (DOk Witnesses.five, mkDState [x09] [Alloc 1]) /\
  exists enc, serialize Witnesses.five = Some enc /\
    [x01; x05; x09] = enc ++ [x09] /\ [Alloc 1] = [Alloc (len Witnesses.five)].
Proof.
  assert (H : decode [x01; x05; x09] = (DOk Witnesses.five, mkDState [x09] [Alloc 1]))
    by reflexivity.
  split; [exact H|].
  exact (FixedArrayMore.deserialize_consumes_encoding _ _ _ H).
Defined.

Lemma constructed_roundtrip_witness :
  constructed Witnesses.five /\
  exists enc, serialize Witnesses.five = Some enc /\ length enc = 2 /\
    forall rest, decode (enc ++ rest) = (DOk Witnesses.five, mkDState rest [Alloc 1]).
Proof.
  assert (H5 : constructed Witnesses.five) by (apply (c_from_bytes [x05]); reflexivity).
  split; [exact H5|].
  exact (FixedArrayMore.constructed_roundtrip Witnesses.five H5).
Defined.

Lemma deserialize_ignores_suffix_witness :
  decode [x01; x05] = (DOk Witnesses.five, mkDState [] [Alloc 1]) /\
  decode ([x01; x05] ++ [x07; x08]) =
    (DOk Witnesses.five, mkDState ([] ++ [x07; x08]) [Alloc 1]).
Proof.
  assert (H : decode [x01; x05] = (DOk Witnesses.five, mkDState [] [Alloc 1]))
    by reflexivity.
  split; [exact H|].
  exact (FixedArrayMore.deserialize_ignores_suffix _ [x07; x08] _ _ H).
Defined.

Lemma is_empty_is_full_views_witness :
  constructed FixedArray.new /\ is_empty FixedArray.new = true /\ is_full Witnesses.five = false.
Proof.
  assert (H0 : constructed FixedArray.new) by constructor.
  pose proof (FixedArrayMore.is_empty_is_full_views FixedArray.new H0) as [[_ He] _].
  split; [exact H0|]. split; [apply He; reflexivity|reflexivity].
Defined.

Lemma validate_accepts_iff_witness :
  fst (validate sample_env (mkValidator tt false tt)
         (mkBlock 4 (mkBody [3] [1; 2] []))) = Ok tt /\
  length (calls (snd (validate sample_env (mkValidator tt false tt)
                        (mkBlock 4 (mkBody [3] [1; 2] []))))) = 14.
Proof.
  assert (H : fst (validate sample_env (mkValidator tt false tt)
                     (mkBlock 4 (mkBody [3] [1; 2] []))) = Ok tt) by reflexivity.
  split; [exact H|].
  pose proof (OrphanMore.validate_accepts_iff sample_env (mkValidator tt false tt)
                (mkBlock 4 (mkBody [3] [1; 2] []))) as [_ P].
  exact (proj2 (P H)).
Defined.

Lemma validate_rejection_source_witness :
  fst (validate sample_env (mkValidator tt false tt) Witnesses.heavy_unbalanced)
    = Err ErrWeight /\
  exists pre s post,
    spec_pipeline sample_env (mkValidator tt false tt) Witnesses.heavy_unbalanced
      = pre ++ (s, Err ErrWeight) :: post /\
    calls (snd (validate sample_env (mkValidator tt false tt) Witnesses.heavy_unbalanced))
      = map fst pre ++ [s].
Proof.
  assert (H : fst (validate sample_env (mkValidator tt false tt)
                     Witnesses.heavy_unbalanced) = Err ErrWeight) by reflexivity.
  split; [exact H|].
  destruct (OrphanMore.validate_rejection_source sample_env (mkValidator tt false tt)
              Witnesses.heavy_unbalanced ErrWeight H)
    as [(Hh & _)|(_ & pre & s & post & Hp & _ & Hc)]; [discriminate|].
  exists pre, s, post. split; [exact Hp | exact Hc].
Defined.


End MoreWitnesses.
